(** * tax_min: the investment / tax mixed-integer linear program of [main.py]

    [main.py] declares the variables of a multi-period model for three
    persons and two investment vehicles, adds its constraints to a
    [pulp.LpProblem] period by period, and hands the problem to the solver.
    This development embeds the model that the script builds and studies its
    feasible points: assignments of rational values to the variables that
    respect every declared bound and every constraint.

    Numeric literals of the script are read as the decimal numbers they denote
    (exact rationals); [5e5] is written [500000], [1e-3] is written [0.001]. *)

From Stdlib Require Import QArith Qround Qpower ZArith List Bool Lia Lqa.
Import ListNotations.
Open Scope Q_scope.

(** ** The part of pulp the script uses *)

Module pulp.

Inductive Category := Continuous | Integer | Binary.

Inductive Sense := LpConstraintLE | LpConstraintGE | LpConstraintEQ.

Section Model.

Variable Name : Type.

(** [pulp.LpVariable(name, lowBound=None, upBound=None, cat='Continuous')].
    A bound that is [None] is absent. *)
Record LpVariable := mkLpVariable {
  name : Name;
  lowBound : option Q;
  upBound : option Q;
  cat : Category
}.

(** The constructor of [LpVariable]: a variable of category ['Binary'] is
    stored as an integer variable with bounds 0 and 1. *)
Definition new_LpVariable (nm : Name) (lo up : option Q) (c : Category) : LpVariable :=
  match c with
  | Binary => mkLpVariable nm (Some 0) (Some 1) Integer
  | _ => mkLpVariable nm lo up c
  end.

(** Affine expressions: what [+], [-] and multiplication by a number build
    from variables and numbers. *)
Inductive LpAffineExpression :=
| Const (c : Q)
| Var (v : LpVariable)
| Add (e1 e2 : LpAffineExpression)
| Sub (e1 e2 : LpAffineExpression)
| Scale (c : Q) (e : LpAffineExpression).

(** [e1 <= e2], [e1 >= e2], [e1 == e2] on expressions. *)
Record LpConstraint := mkLpConstraint {
  lhs : LpAffineExpression;
  sense : Sense;
  rhs : LpAffineExpression
}.

(** [LpProblem]: [problem += e] sets the objective when [e] is an expression
    and appends a constraint when [e] is one. *)
Record LpProblem := mkLpProblem {
  objective : LpAffineExpression;
  constraints : list LpConstraint
}.

(** *** Values at a point *)

Definition Point := Name -> Q.

Definition varValue (x : Point) (v : LpVariable) : Q := x (name v).

Fixpoint value (x : Point) (e : LpAffineExpression) : Q :=
  match e with
  | Const c => c
  | Var v => varValue x v
  | Add e1 e2 => value x e1 + value x e2
  | Sub e1 e2 => value x e1 - value x e2
  | Scale c e1 => c * value x e1
  end.

Definition is_integer (q : Q) : Prop := exists z : Z, q == inject_Z z.

Definition is_integerb (q : Q) : bool := Qeq_bool q (inject_Z (Qfloor q)).

(** A variable is valid at a point when its value respects its bounds and,
    for an integer variable, is an integer. *)
Definition valid (x : Point) (v : LpVariable) : Prop :=
  match lowBound v with Some l => l <= varValue x v | None => True end /\
  match upBound v with Some u => varValue x v <= u | None => True end /\
  match cat v with Continuous => True | _ => is_integer (varValue x v) end.

Definition validb (x : Point) (v : LpVariable) : bool :=
  match lowBound v with Some l => Qle_bool l (varValue x v) | None => true end &&
  match upBound v with Some u => Qle_bool (varValue x v) u | None => true end &&
  match cat v with Continuous => true | _ => is_integerb (varValue x v) end.

(** Every variable that occurs in an expression is valid. *)
Fixpoint valid_in (x : Point) (e : LpAffineExpression) : Prop :=
  match e with
  | Const _ => True
  | Var v => valid x v
  | Add e1 e2 | Sub e1 e2 => valid_in x e1 /\ valid_in x e2
  | Scale _ e1 => valid_in x e1
  end.

Fixpoint valid_inb (x : Point) (e : LpAffineExpression) : bool :=
  match e with
  | Const _ => true
  | Var v => validb x v
  | Add e1 e2 | Sub e1 e2 => valid_inb x e1 && valid_inb x e2
  | Scale _ e1 => valid_inb x e1
  end.

Definition holds (x : Point) (c : LpConstraint) : Prop :=
  match sense c with
  | LpConstraintLE => value x (lhs c) <= value x (rhs c)
  | LpConstraintGE => value x (rhs c) <= value x (lhs c)
  | LpConstraintEQ => value x (lhs c) == value x (rhs c)
  end.

Definition holdsb (x : Point) (c : LpConstraint) : bool :=
  match sense c with
  | LpConstraintLE => Qle_bool (value x (lhs c)) (value x (rhs c))
  | LpConstraintGE => Qle_bool (value x (rhs c)) (value x (lhs c))
  | LpConstraintEQ => Qeq_bool (value x (lhs c)) (value x (rhs c))
  end.

(** A constraint is satisfied at a point when it holds there and the
    variables it mentions are valid. *)
Definition satisfied (x : Point) (c : LpConstraint) : Prop :=
  holds x c /\ valid_in x (lhs c) /\ valid_in x (rhs c).

Definition satisfiedb (x : Point) (c : LpConstraint) : bool :=
  holdsb x c && valid_inb x (lhs c) && valid_inb x (rhs c).

(** The variables of a problem are those of its objective and constraints;
    a point is feasible when all of them are valid and all constraints hold. *)
Definition feasible (prob : LpProblem) (x : Point) : Prop :=
  valid_in x (objective prob) /\ Forall (satisfied x) (constraints prob).

Definition feasibleb (prob : LpProblem) (x : Point) : bool :=
  valid_inb x (objective prob) && forallb (satisfiedb x) (constraints prob).

(** [pulp.lpSum]. *)
Definition lpSum (es : list LpAffineExpression) : LpAffineExpression :=
  fold_left Add es (Const 0).

End Model.

Arguments mkLpVariable {Name}.
Arguments new_LpVariable {Name}.
Arguments name {Name}.
Arguments lowBound {Name}.
Arguments upBound {Name}.
Arguments cat {Name}.
Arguments Const {Name}.
Arguments Var {Name}.
Arguments Add {Name}.
Arguments Sub {Name}.
Arguments Scale {Name}.
Arguments mkLpConstraint {Name}.
Arguments lhs {Name}.
Arguments sense {Name}.
Arguments rhs {Name}.
Arguments mkLpProblem {Name}.
Arguments objective {Name}.
Arguments constraints {Name}.
Arguments varValue {Name}.
Arguments value {Name}.
Arguments valid {Name}.
Arguments validb {Name}.
Arguments valid_in {Name}.
Arguments valid_inb {Name}.
Arguments holds {Name}.
Arguments holdsb {Name}.
Arguments satisfied {Name}.
Arguments satisfiedb {Name}.
Arguments feasible {Name}.
Arguments feasibleb {Name}.
Arguments lpSum {Name}.

End pulp.

Import pulp.

Declare Scope lp_scope.
Delimit Scope lp_scope with lp.
Notation "e1 + e2" := (Add e1 e2) : lp_scope.
Notation "e1 - e2" := (Sub e1 e2) : lp_scope.
Notation "c *: e" := (Scale c e) (at level 40, left associativity) : lp_scope.
Notation "e :* c" := (Scale c e) (at level 40, left associativity) : lp_scope.
Notation "e1 == e2" := (mkLpConstraint e1%lp LpConstraintEQ e2%lp) : lp_scope.
Notation "e1 <= e2" := (mkLpConstraint e1%lp LpConstraintLE e2%lp) : lp_scope.
Notation "e1 >= e2" := (mkLpConstraint e1%lp LpConstraintGE e2%lp) : lp_scope.

Bind Scope lp_scope with LpAffineExpression.
Coercion Var : LpVariable >-> LpAffineExpression.
#[warning="-uniform-inheritance"]
Coercion Const : Q >-> LpAffineExpression.

(** ** Constants and initial values *)

(** [round(x, ndigits)], rounding half to even. *)
Definition round_half_even (x : Q) : Z :=
  let fl := Qfloor x in
  match Qcompare (x - inject_Z fl) (1 # 2) with
  | Lt => fl
  | Gt => (fl + 1)%Z
  | Eq => if Z.even fl then fl else (fl + 1)%Z
  end.

Definition round (x : Q) (ndigits : Z) : Q :=
  Qred (inject_Z (round_half_even (x * 10 ^ ndigits)) / 10 ^ ndigits).

(** [l[y]] for a list of numbers; the script only indexes within range. *)
Definition getitem (l : list Q) (y : nat) : Q := nth y l 0.
Notation "l .[ y ]" := (getitem l y) (at level 1, left associativity, format "l .[ y ]").

Inductive Person := m | p | n.
Inductive Investment := i | g.

(** The keys ['A'], ['B'], ['C'] of the bracket tables
    ([string.ascii_uppercase[cnt]] for [cnt] in [range(3)]). *)
Inductive Bracket := BrA | BrB | BrC.

Definition VERY_LARGE_NUM : Q := 100000000.
Definition VERY_SMALL_NUM : Q := 0.001.
Definition Y : nat := 10 + 1.
Definition max_HR_fraction : Q := 0.5.
Definition SeniorPersons : list Person := [m; p].
Definition Persons : list Person := SeniorPersons ++ [n].
Definition Investments : list Investment := [i; g].
Definition Person_Investments : list (Person * Investment) :=
  list_prod Persons Investments.
Definition SAL_c (y : nat) : Q := round (3000000 * (1 + 0.1) ^ Z.of_nat y) (-2).
Definition BS_c (y : nat) : Q := 0.4 * SAL_c y.
Definition SR_c (y : nat) : Q := round (174000 * (1 + 0.1) ^ Z.of_nat y) (-2).
Definition DF_lim (q : Person) : Q :=
  match q with m => 50000 | p => 50000 | n => 50000 end.
Definition D_lim (q : Person) : Q :=
  match q with m => 300000 | p => 300000 | n => 275000 end.
Definition DD_lim (q : Person) : Q := D_lim q - DF_lim q.
Definition A0 (q : Person) (v : Investment) : Q :=
  match q, v with
  | m, i => 2000000 | m, g => 1159500
  | p, i => 1700000 | p, g => 225000
  | n, i => 0 | n, g => 0
  end.
Definition r (q : Person) (v : Investment) : list Q :=
  match q, v with
  | m, i => repeat 0.08887 Y | m, g => repeat 0.09844 Y
  | p, i => repeat 0.08626 Y | p, g => repeat 0.07978 Y
  | n, i => repeat 0.09308 Y | n, g => repeat 0.09308 Y
  end.
Definition d (q : Person) : list Q := repeat 1 Y.
Definition rho : list Q := map (fun y => round ((1 - 0) ^ Z.of_nat y) 4) (seq 0 Y).

(** ** Variables *)

(** The names of the variables: [f_m], [DF_m_0], [I_m_i_0], [b_m_0_0], ... *)
Inductive Name :=
| f_ (q : Person)
| DF_ (q : Person) (y : nat)
| D_ (q : Person) (y : nat)
| HR_ (q : Person) (y : nat)
| I_ (q : Person) (v : Investment) (y : nat)
| A_ (q : Person) (v : Investment) (y : nat)
| t_ (q : Person) (y : nat)
| F_ (q : Person) (v : Investment) (y : nat)
| T_ (q : Person) (y : nat)
| E_ (q : Person) (y : nat)
| K_ (q : Person) (y : nat)
| b_ (q : Person) (y : nat) (cnt : Bracket)
| tax_comp_ (q : Person) (y : nat) (cnt : Bracket).

Definition LpVar := LpVariable Name.
Definition Expr := LpAffineExpression Name.

(** Choice variables.  [f] has keys ['m'] and ['p'].  [LpVariable.dict(name,
    indices, lowBound, upBound, cat)] takes the bounds in that order: for [DF]
    the third argument is [DF_lim[p]] and no upper bound is passed. *)
Definition f (q : Person) : LpVar :=
  new_LpVariable (f_ q) (Some 0) (Some 1) Continuous.
Definition DF (q : Person) (y : nat) : LpVar :=
  new_LpVariable (DF_ q y) (Some (DF_lim q)) None Continuous.
Definition D (q : Person) (y : nat) : LpVar :=
  new_LpVariable (D_ q y) (Some 0) (Some (D_lim q)) Continuous.

(** Fixed schedules. *)
Definition BS (q : Person) (y : nat) : Q :=
  match q with n => BS_c y | _ => 0 end.
Definition SAL (q : Person) (y : nat) : Q :=
  match q with n => SAL_c y | _ => 0 end.
Definition SR (q : Person) (y : nat) : Q :=
  match q with m => SR_c y | p => 0 | n => 0 end.

(** Derived variables. *)
Definition HR (q : Person) (y : nat) : LpVar :=
  new_LpVariable (HR_ q y) (Some 0) None Continuous.
Definition I (q : Person) (v : Investment) (y : nat) : LpVar :=
  new_LpVariable (I_ q v y) (Some 0) None Continuous.
Definition A (q : Person) (v : Investment) (y : nat) : LpVar :=
  new_LpVariable (A_ q v y) (Some 0) None Continuous.
Definition t (q : Person) (y : nat) : LpVar :=
  new_LpVariable (t_ q y) (Some 0) None Continuous.
Definition F (q : Person) (v : Investment) (y : nat) : LpVar :=
  new_LpVariable (F_ q v y) None None Continuous.
Definition T (q : Person) (y : nat) : LpVar :=
  new_LpVariable (T_ q y) (Some 0) None Continuous.
Definition E (q : Person) (y : nat) : LpVar :=
  new_LpVariable (E_ q y) (Some 0) None Continuous.
Definition K (q : Person) (y : nat) : LpVar :=
  new_LpVariable (K_ q y) (Some 0) None Continuous.

(** Binary variables of the tax brackets and the bracket components. *)
Definition b (q : Person) (y : nat) (cnt : Bracket) : LpVar :=
  new_LpVariable (b_ q y cnt) None None Binary.
Definition tax_comp (q : Person) (y : nat) (cnt : Bracket) : LpVar :=
  new_LpVariable (tax_comp_ q y cnt) (Some 0) None Continuous.

(** ** Objective and constraints *)

Definition LpC := LpConstraint Name.

Open Scope lp_scope.

Definition objective_function : Expr :=
  lpSum (flat_map (fun q => map (fun y => rho.[y] *: t q y) (seq 0 Y)) Persons).

Definition initial_values : list LpC :=
  map (fun qv => let '(q, v) := qv in A q v 0 == A0 q v) Person_Investments.

Definition income_constraints (y : nat) : list LpC :=
  map (fun qv => let '(q, v) := qv in I q v y == (r q v).[y] *: A q v y)
      Person_Investments.

Definition wealth_constraints (y : nat) : list LpC :=
  if (0 <? y)%nat then
    flat_map (fun q =>
      [ A q i y == A q i (y - 1)%nat + F q i y;
        A q g y == A q g (y - 1)%nat + F q g y + I q g y ]) Persons
  else [].

Definition deduction_constraints (y : nat) : list LpC :=
  flat_map (fun q =>
    [ D q y >= DF q y;
      D q y <= DF q y + DD_lim q ]) Persons.

Definition HR_constraints (y : nat) : list LpC :=
  [ HR m y == f m :* BS n y;
    HR p y == f p :* BS n y;
    f m + f p <= max_HR_fraction ].

Definition taxable_income_constraints (y : nat) : list LpC :=
  map (fun q =>
    T q y ==
      SAL q y + SR q y + HR q y + I q i y + I q g y - D q y
      - 0.3 *: (HR q y + SR q y)
      - ((0.12 + 0.1) * BS q y)%Q
      - (f m + f p - 0.1) :* BS q y) Persons.

Definition tax_constraints (y : nat) : list LpC :=
  flat_map (fun q =>
    [ b q y BrA + b q y BrB + b q y BrC == 1;
      T q y <= 500000 + (1 - b q y BrA) :* VERY_LARGE_NUM;
      T q y >= (500000 + VERY_SMALL_NUM)%Q *: b q y BrB;
      T q y <= 1000000 + (1 - b q y BrB) :* VERY_LARGE_NUM;
      T q y >= (1000000 + VERY_SMALL_NUM)%Q *: b q y BrC;
      tax_comp q y BrA <= 0;
      tax_comp q y BrB <= 1.04 *: (0.2 *: T q y - 87500 *: b q y BrB);
      tax_comp q y BrB <= 1.04 *: (VERY_LARGE_NUM *: b q y BrB);
      tax_comp q y BrB >=
        1.04 *: (0.2 *: T q y - 87500 - VERY_LARGE_NUM *: (1 - b q y BrB));
      tax_comp q y BrC <= 1.04 *: (0.3 *: T q y - 187500 *: b q y BrC);
      tax_comp q y BrC <= 1.04 *: (VERY_LARGE_NUM *: b q y BrC);
      tax_comp q y BrC >=
        1.04 *: (0.3 *: T q y - 187500 - VERY_LARGE_NUM *: (1 - b q y BrC));
      t q y == tax_comp q y BrA + tax_comp q y BrB + tax_comp q y BrC ]) Persons.

Definition expense_constraints (y : nat) : list LpC :=
  map (fun q => E q y == SR q y + I q i 0) SeniorPersons
  ++ [ E n y == BS n y + HR m y + HR p y ].

Definition disposable_income_constraints (y : nat) : list LpC :=
  map (fun q =>
    K q y ==
      SAL q y + SR q y + HR q y + I q i y + DF q y - D q y - E q y - t q y)
    Persons.

Definition investment_constraints (y : nat) : list LpC :=
  flat_map (fun q =>
    [ F q g y == (d q).[y] *: K q y;
      F q i y == (1 - (d q).[y])%Q *: K q y ]) Persons.

(** The body of [for y in range(Y)]. *)
Definition period_constraints (y : nat) : list LpC :=
  income_constraints y
  ++ wealth_constraints y
  ++ deduction_constraints y
  ++ HR_constraints y
  ++ taxable_income_constraints y
  ++ tax_constraints y
  ++ expense_constraints y
  ++ disposable_income_constraints y
  ++ investment_constraints y.

Definition problem : LpProblem Name :=
  mkLpProblem objective_function
    (initial_values ++ flat_map period_constraints (seq 0 Y)).

Close Scope lp_scope.

(** ** The tax function *)

(** The tax function that the bracket constraints of the script pin down:
    nothing up to 500000, then 20% less 87500, then 30% less 187500, each
    with the 4% surcharge factor 1.04 of the script. *)
Definition G_model (income : Q) : Q :=
  if Qle_bool income 500000 then 0
  else if Qle_bool income 1000000 then 1.04 * (0.2 * income - 87500)
  else 1.04 * (0.3 * income - 187500).

(** The bracket function as the specification words it: thresholds 500000
    and 1000000, marginal rates 0, 20%, 30%, each bracket adding to the tax
    accumulated at the top of the lower ones. *)
Definition G_spec (income : Q) : Q :=
  if Qle_bool income 500000 then 0
  else if Qle_bool income 1000000 then 0.2 * (income - 500000)
  else 100000 + 0.3 * (income - 1000000).

(** The bracket an income falls in. *)
Definition bracket_of (income : Q) : Bracket :=
  if Qle_bool income 500000 then BrA
  else if Qle_bool income 1000000 then BrB
  else BrC.

Definition Bracket_eqb (c1 c2 : Bracket) : bool :=
  match c1, c2 with
  | BrA, BrA | BrB, BrB | BrC, BrC => true
  | _, _ => false
  end.

(** ** A concrete point of the model

    A point is fixed by the shares [f], the deductions, the home rent of [n]
    and the growth balances; the remaining variables are read off the
    equality constraints. *)

Record Choice := mkChoice {
  c_f : Person -> Q;
  c_DF : Person -> list Q;
  c_D : Person -> Q;
  c_HR_n : Q;
  c_Ag : Person -> list Q
}.

Section PointOf.

Variable ch : Choice.

Definition HR_at (q : Person) (y : nat) : Q :=
  match q with
  | n => c_HR_n ch
  | _ => c_f ch q * BS n y
  end.

Definition Ii_at (q : Person) (y : nat) : Q := (r q i).[y] * A0 q i.

Definition Ig_at (q : Person) (y : nat) : Q := (r q g).[y] * (c_Ag ch q).[y].

Definition E_at (q : Person) (y : nat) : Q :=
  match q with
  | n => BS n y + HR_at m y + HR_at p y
  | _ => SR q y + Ii_at q 0
  end.

Definition T_at (q : Person) (y : nat) : Q :=
  Qred (SAL q y + SR q y + HR_at q y + Ii_at q y + Ig_at q y - c_D ch q
        - 0.3 * (HR_at q y + SR q y) - (0.12 + 0.1) * BS q y
        - (c_f ch m + c_f ch p - 0.1) * BS q y).

Definition t_at (q : Person) (y : nat) : Q := Qred (G_model (T_at q y)).

Definition K_at (q : Person) (y : nat) : Q :=
  Qred (SAL q y + SR q y + HR_at q y + Ii_at q y + (c_DF ch q).[y] - c_D ch q
        - E_at q y - t_at q y).

Definition point_of : Name -> Q :=
  fun nm =>
    match nm with
    | f_ q => c_f ch q
    | DF_ q y => (c_DF ch q).[y]
    | D_ q y => c_D ch q
    | HR_ q y => HR_at q y
    | I_ q i y => Ii_at q y
    | I_ q g y => Ig_at q y
    | A_ q i y => A0 q i
    | A_ q g y => (c_Ag ch q).[y]
    | t_ q y => t_at q y
    | F_ q i y => 0
    | F_ q g y => K_at q y
    | T_ q y => T_at q y
    | E_ q y => E_at q y
    | K_ q y => K_at q y
    | b_ q y c => if Bracket_eqb (bracket_of (T_at q y)) c then 1 else 0
    | tax_comp_ q y c =>
        if Bracket_eqb (bracket_of (T_at q y)) c then t_at q y else 0
    end.

End PointOf.

(** Equal shares of a quarter, total deductions at their limit, a home rent
    of 12000 a period for [n], and growth balances that are round numbers
    from period 1 on. *)
Definition x0_choice : Choice :=
  mkChoice
    (fun _ => 0.25)
    (fun q =>
       match q with
       | m => [300000; 72684; 69652; 112403.552; 50479.488; 77670.24;
               93698.304; 98196.288; 100280.48; 97215.872; 83153.168]
       | p => [300000; 113088; 89132; 128898; 65034; 89202; 100992; 99974;
               112822.4; 107335.872; 90028.432]
       | n => [275000; 94252.672; 88447.36; 70780.736; 134303.1552;
               84823.168; 115258.8288; 124899.0208; 112949.9392; 78535.0912;
               114258.3168]
       end)
    D_lim
    12000
    (fun q =>
       match q with
       | m => [1159500; 1400000; 1700000; 2100000; 2500000; 3000000; 3600000;
               4300000; 5100000; 6000000; 7000000]
       | p => [225000; 400000; 600000; 900000; 1200000; 1600000; 2100000;
               2700000; 3400000; 4200000; 5100000]
       | n => [0; 700000; 1500000; 2400000; 3500000; 4700000; 6100000;
               7700000; 9500000; 11500000; 13800000]
       end).

Definition x0 : Name -> Q := point_of x0_choice.

(** The same with no home rent for [n]. *)
Definition x1_choice : Choice :=
  mkChoice
    (c_f x0_choice)
    (fun q =>
       match q with
       | n => [275000; 103631.872; 97826.56; 80159.936; 50086.2592;
               100606.272; 131041.9328; 140682.1248; 128733.0432; 94318.1952;
               130041.4208]
       | _ => c_DF x0_choice q
       end)
    D_lim
    0
    (fun q =>
       match q with
       | n => [0; 700000; 1500000; 2400000; 3400000; 4600000; 6000000;
               7600000; 9400000; 11400000; 13700000]
       | _ => c_Ag x0_choice q
       end).

Definition x1 : Name -> Q := point_of x1_choice.

(** Taxable income as the specification words it: the statutory exclusions
    of 12% and 10% of the basic salary and the whole share of the basic
    salary paid as home rent are taken off, and nothing else. *)
Definition taxable_income_spec (x : Name -> Q) (q : Person) (y : nat) : Q :=
  SAL q y + SR q y + varValue x (HR q y) + varValue x (I q i y)
  + varValue x (I q g y) - varValue x (D q y)
  - 0.3 * (varValue x (HR q y) + SR q y)
  - (0.12 + 0.1) * BS q y
  - (varValue x (f m) + varValue x (f p)) * BS q y.

(** * Properties *)

(** ** The boolean check of feasibility is sound *)

Section Soundness.

Context {Nm : Type}.
Implicit Types (x : Nm -> Q) (v : LpVariable Nm) (e : LpAffineExpression Nm).

Lemma is_integerb_sound (q : Q) : is_integerb q = true -> is_integer q.
Proof.
  unfold is_integerb, is_integer. intros H.
  exists (Qfloor q). now apply Qeq_bool_iff.
Qed.

Lemma validb_sound x v : validb x v = true -> valid x v.
Proof.
  unfold validb, valid. intros H.
  apply andb_prop in H. destruct H as [H Hc].
  apply andb_prop in H. destruct H as [Hl Hu].
  repeat split.
  - destruct (lowBound v); [now apply Qle_bool_iff | exact Logic.I].
  - destruct (upBound v); [now apply Qle_bool_iff | exact Logic.I].
  - destruct (cat v); [exact Logic.I | |]; now apply is_integerb_sound.
Qed.

Lemma valid_inb_sound x e : valid_inb x e = true -> valid_in x e.
Proof.
  induction e as [c|v|e1 IH1 e2 IH2|e1 IH1 e2 IH2|c e1 IH1]; simpl; intros H.
  - exact Logic.I.
  - now apply validb_sound.
  - apply andb_prop in H. destruct H. split; auto.
  - apply andb_prop in H. destruct H. split; auto.
  - auto.
Qed.

Lemma holdsb_sound x (c : LpConstraint Nm) : holdsb x c = true -> holds x c.
Proof.
  unfold holdsb, holds. destruct (sense c); intros H.
  - now apply Qle_bool_iff.
  - now apply Qle_bool_iff.
  - now apply Qeq_bool_iff.
Qed.

Lemma satisfiedb_sound x (c : LpConstraint Nm) :
  satisfiedb x c = true -> satisfied x c.
Proof.
  unfold satisfiedb, satisfied. intros H.
  apply andb_prop in H. destruct H as [H Hr].
  apply andb_prop in H. destruct H as [Hh Hl].
  auto using holdsb_sound, valid_inb_sound.
Qed.

Lemma feasibleb_sound (prob : LpProblem Nm) x :
  feasibleb prob x = true -> feasible prob x.
Proof.
  unfold feasibleb, feasible. intros H.
  apply andb_prop in H. destruct H as [Ho Hc]. split.
  - now apply valid_inb_sound.
  - apply Forall_forall. intros c Hin.
    apply satisfiedb_sound.
    rewrite forallb_forall in Hc. now apply Hc.
Qed.

End Soundness.

(** The point [x0] is a feasible point of the model: the model is not void. *)
Lemma x0_feasible : feasible problem x0.
Proof. apply feasibleb_sound. vm_compute. reflexivity. Qed.

(** So is [x1]. *)
Lemma x1_feasible : feasible problem x1.
Proof. apply feasibleb_sound. vm_compute. reflexivity. Qed.

(** ** From the built problem to its constraints *)

Lemma feasible_satisfied x c :
  feasible problem x -> In c (constraints problem) -> satisfied x c.
Proof.
  intros [_ H] Hin. rewrite Forall_forall in H. now apply H.
Qed.

Lemma in_initial c : In c initial_values -> In c (constraints problem).
Proof.
  intros H.
  change (In c (initial_values ++ flat_map period_constraints (seq 0 Y))).
  apply in_or_app. now left.
Qed.

Lemma in_period (y : nat) c :
  (y < Y)%nat -> In c (period_constraints y) -> In c (constraints problem).
Proof.
  intros Hy H.
  change (In c (initial_values ++ flat_map period_constraints (seq 0 Y))).
  apply in_or_app. right.
  apply in_flat_map. exists y. split; [apply in_seq; lia | exact H].
Qed.

Lemma In_Persons (q : Person) : In q Persons.
Proof. destruct q; simpl; auto. Qed.

Lemma In_Person_Investments (q : Person) (v : Investment) :
  In (q, v) Person_Investments.
Proof. destruct q, v; simpl; auto 10. Qed.

(** Reading a member of a block of the loop body as a member of the body. *)
Ltac in_body :=
  unfold period_constraints; rewrite ?in_app_iff; auto 20.

Section Blocks.

Variable x : Name -> Q.
Hypothesis Hx : feasible problem x.
Variable y : nat.
Hypothesis Hy : (y < Y)%nat.

Lemma initial_sat q v : satisfied x (A q v 0 == A0 q v)%lp.
Proof.
  apply feasible_satisfied; [exact Hx|]. apply in_initial.
  unfold initial_values.
  apply (in_map (fun qv : Person * Investment =>
                   let '(q, v) := qv in (A q v 0 == A0 q v)%lp) _ (q, v)).
  apply In_Person_Investments.
Qed.

Lemma income_sat q v : satisfied x (I q v y == (r q v).[y] *: A q v y)%lp.
Proof.
  apply feasible_satisfied; [exact Hx|]. apply (in_period y); [exact Hy|].
  assert (In (I q v y == (r q v).[y] *: A q v y)%lp (income_constraints y)).
  { apply (in_map (fun qv : Person * Investment =>
                     let '(q, v) := qv in (I q v y == (r q v).[y] *: A q v y)%lp)
                  _ (q, v)).
    apply In_Person_Investments. }
  in_body.
Qed.

Lemma wealth_in q c :
  (0 < y)%nat ->
  In c [ (A q i y == A q i (y - 1)%nat + F q i y)%lp;
         (A q g y == A q g (y - 1)%nat + F q g y + I q g y)%lp ] ->
  In c (constraints problem).
Proof.
  intros H0 Hin. apply (in_period y); [exact Hy|].
  assert (In c (wealth_constraints y)).
  { unfold wealth_constraints.
    assert (E0 : (0 <? y)%nat = true) by (apply Nat.ltb_lt; exact H0).
    rewrite E0. apply in_flat_map. exists q. split; [apply In_Persons | exact Hin]. }
  in_body.
Qed.

Lemma wealth_i_sat q :
  (0 < y)%nat -> satisfied x (A q i y == A q i (y - 1)%nat + F q i y)%lp.
Proof.
  intros H0. apply feasible_satisfied; [exact Hx|].
  apply (wealth_in q); [exact H0 | simpl; auto].
Qed.

Lemma wealth_g_sat q :
  (0 < y)%nat ->
  satisfied x (A q g y == A q g (y - 1)%nat + F q g y + I q g y)%lp.
Proof.
  intros H0. apply feasible_satisfied; [exact Hx|].
  apply (wealth_in q); [exact H0 | simpl; auto].
Qed.

Lemma deduction_in q c :
  In c [ (D q y >= DF q y)%lp; (D q y <= DF q y + DD_lim q)%lp ] ->
  In c (constraints problem).
Proof.
  intros Hin. apply (in_period y); [exact Hy|].
  assert (In c (deduction_constraints y)).
  { apply in_flat_map. exists q. split; [apply In_Persons | exact Hin]. }
  in_body.
Qed.

Lemma HR_in c : In c (HR_constraints y) -> In c (constraints problem).
Proof. intros Hin. apply (in_period y); [exact Hy|]. in_body. Qed.

Lemma taxable_income_sat q :
  satisfied x
    (T q y ==
       SAL q y + SR q y + HR q y + I q i y + I q g y - D q y
       - 0.3 *: (HR q y + SR q y)
       - ((0.12 + 0.1) * BS q y)%Q
       - (f m + f p - 0.1) :* BS q y)%lp.
Proof.
  apply feasible_satisfied; [exact Hx|]. apply (in_period y); [exact Hy|].
  assert (In (T q y ==
       SAL q y + SR q y + HR q y + I q i y + I q g y - D q y
       - 0.3 *: (HR q y + SR q y)
       - ((0.12 + 0.1) * BS q y)%Q
       - (f m + f p - 0.1) :* BS q y)%lp (taxable_income_constraints y)).
  { unfold taxable_income_constraints.
    apply (in_map (fun q => (T q y ==
       SAL q y + SR q y + HR q y + I q i y + I q g y - D q y
       - 0.3 *: (HR q y + SR q y)
       - ((0.12 + 0.1) * BS q y)%Q
       - (f m + f p - 0.1) :* BS q y)%lp) _ q).
    apply In_Persons. }
  in_body.
Qed.

Lemma tax_sat q :
  Forall (satisfied x)
    [ (b q y BrA + b q y BrB + b q y BrC == 1)%lp;
      (T q y <= 500000 + (1 - b q y BrA) :* VERY_LARGE_NUM)%lp;
      (T q y >= (500000 + VERY_SMALL_NUM)%Q *: b q y BrB)%lp;
      (T q y <= 1000000 + (1 - b q y BrB) :* VERY_LARGE_NUM)%lp;
      (T q y >= (1000000 + VERY_SMALL_NUM)%Q *: b q y BrC)%lp;
      (tax_comp q y BrA <= 0)%lp;
      (tax_comp q y BrB <= 1.04 *: (0.2 *: T q y - 87500 *: b q y BrB))%lp;
      (tax_comp q y BrB <= 1.04 *: (VERY_LARGE_NUM *: b q y BrB))%lp;
      (tax_comp q y BrB >=
        1.04 *: (0.2 *: T q y - 87500 - VERY_LARGE_NUM *: (1 - b q y BrB)))%lp;
      (tax_comp q y BrC <= 1.04 *: (0.3 *: T q y - 187500 *: b q y BrC))%lp;
      (tax_comp q y BrC <= 1.04 *: (VERY_LARGE_NUM *: b q y BrC))%lp;
      (tax_comp q y BrC >=
        1.04 *: (0.3 *: T q y - 187500 - VERY_LARGE_NUM *: (1 - b q y BrC)))%lp;
      (t q y == tax_comp q y BrA + tax_comp q y BrB + tax_comp q y BrC)%lp ].
Proof.
  apply Forall_forall. intros c Hin.
  apply feasible_satisfied; [exact Hx|]. apply (in_period y); [exact Hy|].
  assert (In c (tax_constraints y)).
  { apply in_flat_map. exists q. split; [apply In_Persons | exact Hin]. }
  in_body.
Qed.

Lemma expense_senior_sat q :
  In q SeniorPersons -> satisfied x (E q y == SR q y + I q i 0)%lp.
Proof.
  intros Hq. apply feasible_satisfied; [exact Hx|]. apply (in_period y); [exact Hy|].
  assert (In (E q y == SR q y + I q i 0)%lp (expense_constraints y)).
  { unfold expense_constraints. apply in_or_app. left.
    apply (in_map (fun q => (E q y == SR q y + I q i 0)%lp) _ q). exact Hq. }
  in_body.
Qed.

Lemma expense_n_sat : satisfied x (E n y == BS n y + HR m y + HR p y)%lp.
Proof.
  apply feasible_satisfied; [exact Hx|]. apply (in_period y); [exact Hy|].
  assert (In (E n y == BS n y + HR m y + HR p y)%lp (expense_constraints y)).
  { unfold expense_constraints. apply in_or_app. right. simpl. auto. }
  in_body.
Qed.

Lemma disposable_income_sat q :
  satisfied x
    (K q y ==
       SAL q y + SR q y + HR q y + I q i y + DF q y - D q y - E q y - t q y)%lp.
Proof.
  apply feasible_satisfied; [exact Hx|]. apply (in_period y); [exact Hy|].
  assert (In (K q y ==
       SAL q y + SR q y + HR q y + I q i y + DF q y - D q y - E q y - t q y)%lp
            (disposable_income_constraints y)).
  { apply (in_map (fun q => (K q y ==
       SAL q y + SR q y + HR q y + I q i y + DF q y - D q y - E q y - t q y)%lp)
                  _ q).
    apply In_Persons. }
  in_body.
Qed.

Lemma investment_in q c :
  In c [ (F q g y == (d q).[y] *: K q y)%lp;
         (F q i y == (1 - (d q).[y])%Q *: K q y)%lp ] ->
  In c (constraints problem).
Proof.
  intros Hin. apply (in_period y); [exact Hy|].
  assert (In c (investment_constraints y)).
  { apply in_flat_map. exists q. split; [apply In_Persons | exact Hin]. }
  in_body.
Qed.

End Blocks.

(** ** Auxiliary facts *)

Lemma nth_repeat_in (c dflt : Q) (k j : nat) :
  (j < k)%nat -> nth j (repeat c k) dflt = c.
Proof.
  revert j. induction k as [|k IH]; intros j Hj; [lia|].
  destruct j as [|j]; simpl; [reflexivity | apply IH; lia].
Qed.

Lemma d_in_range (q : Person) (y : nat) : (y < Y)%nat -> (d q).[y] = 1.
Proof. intros Hy. unfold d, getitem. now apply nth_repeat_in. Qed.

Lemma r_constant (q : Person) (v : Investment) (y y' : nat) :
  (y < Y)%nat -> (y' < Y)%nat -> (r q v).[y] = (r q v).[y'].
Proof.
  intros Hy Hy'. unfold getitem.
  destruct q, v; unfold r; now rewrite !nth_repeat_in.
Qed.

Lemma binary_cases (q : Q) :
  0 <= q -> q <= 1 -> is_integer q -> q == 0 \/ q == 1.
Proof.
  intros H0 H1 [z Hz]. rewrite Hz in H0, H1.
  change 0 with (inject_Z 0) in H0. change 1 with (inject_Z 1) in H1.
  rewrite <- Zle_Qle in H0, H1.
  assert (Hc : (z = 0 \/ z = 1)%Z) by lia.
  destruct Hc as [-> | ->]; [left | right]; exact Hz.
Qed.

Lemma Qle_bool_false (a c : Q) : Qle_bool a c = false -> c < a.
Proof.
  intros H. apply Qnot_le_lt. intros Hle.
  apply Qle_bool_iff in Hle. congruence.
Qed.

(** Unfolding a satisfied constraint into inequalities between values. *)
Ltac lp_unfold_in H :=
  cbv [satisfied holds valid_in valid value varValue name lowBound upBound
       cat sense lhs rhs new_LpVariable f DF D HR I A t F T E K b tax_comp] in H.

Ltac lp_unfold :=
  cbv [varValue name new_LpVariable f DF D HR I A t F T E K b tax_comp].

(** What the bracket constraints say at a feasible point, for one person and
    one period. *)
Lemma tax_facts x q y :
  feasible problem x -> (y < Y)%nat ->
  let bA := x (b_ q y BrA) in
  let bB := x (b_ q y BrB) in
  let bC := x (b_ q y BrC) in
  let cA := x (tax_comp_ q y BrA) in
  let cB := x (tax_comp_ q y BrB) in
  let cC := x (tax_comp_ q y BrC) in
  let inc := x (T_ q y) in
  (bA == 0 \/ bA == 1) /\ (bB == 0 \/ bB == 1) /\ (bC == 0 \/ bC == 1) /\
  bA + bB + bC == 1 /\
  inc <= 500000 + 100000000 * (1 - bA) /\
  500000.001 * bB <= inc /\
  inc <= 1000000 + 100000000 * (1 - bB) /\
  1000000.001 * bC <= inc /\
  0 <= cA /\ cA <= 0 /\
  0 <= cB /\
  cB <= 1.04 * (0.2 * inc - 87500 * bB) /\
  cB <= 1.04 * (100000000 * bB) /\
  1.04 * (0.2 * inc - 87500 - 100000000 * (1 - bB)) <= cB /\
  0 <= cC /\
  cC <= 1.04 * (0.3 * inc - 187500 * bC) /\
  cC <= 1.04 * (100000000 * bC) /\
  1.04 * (0.3 * inc - 187500 - 100000000 * (1 - bC)) <= cC /\
  x (t_ q y) == cA + cB + cC /\
  0 <= inc.
Proof.
  intros Hx Hy. pose proof (tax_sat x Hx y Hy q) as H.
  repeat match type of H with
         | Forall _ (_ :: _) =>
             let H1 := fresh "S" in
             apply Forall_cons_iff in H; destruct H as [H1 H]; lp_unfold_in H1
         end.
  clear H. unfold VERY_LARGE_NUM, VERY_SMALL_NUM in *.
  cbv zeta.
  assert (HbA : x (b_ q y BrA) == 0 \/ x (b_ q y BrA) == 1)
    by (apply binary_cases; tauto).
  assert (HbB : x (b_ q y BrB) == 0 \/ x (b_ q y BrB) == 1)
    by (apply binary_cases; tauto).
  assert (HbC : x (b_ q y BrC) == 0 \/ x (b_ q y BrC) == 1)
    by (apply binary_cases; tauto).
  repeat split; try tauto; try lra.
Qed.

(** ** The tax bracket linearisation *)

(** C1 (as the code has it): at every feasible point, for every person and
    period, the tax liability [t] equals [G_model] of the taxable income [T]:
    0 up to 500000, [1.04 * (0.2 * T - 87500)] in the middle bracket and
    [1.04 * (0.3 * T - 187500)] in the top bracket. *)
Theorem C1_tax_is_G_model x q y :
  feasible problem x -> (y < Y)%nat ->
  varValue x (t q y) == G_model (varValue x (T q y)).
Proof.
  intros Hx Hy. pose proof (tax_facts x q y Hx Hy) as H. cbv zeta in H.
  lp_unfold. unfold G_model.
  destruct H as (HbA & HbB & HbC & H).
  destruct (Qle_bool (x (T_ q y)) 500000) eqn:E1;
    [apply Qle_bool_iff in E1 | apply Qle_bool_false in E1;
     destruct (Qle_bool (x (T_ q y)) 1000000) eqn:E2;
       [apply Qle_bool_iff in E2 | apply Qle_bool_false in E2]];
    destruct HbA as [HbA | HbA], HbB as [HbB | HbB], HbC as [HbC | HbC];
    rewrite HbA, HbB, HbC in H; lra.
Qed.

Lemma C1_witness : varValue x0 (t n 0) == G_model (varValue x0 (T n 0)).
Proof. apply (C1_tax_is_G_model x0 n 0 x0_feasible). unfold Y. lia. Defined.

(** C1 (as the specification words it) fails: at the feasible point [x0] the
    tax liability of [n] in period 0 is 425692.8 on a taxable income of
    1989400, where the bracket function of the specification gives 396820. *)
Lemma C1_counterexample :
  feasible problem x0 /\ (0 < Y)%nat /\
  varValue x0 (T n 0) == 1989400 /\
  varValue x0 (t n 0) == 425692.8 /\
  G_spec (varValue x0 (T n 0)) == 396820 /\
  ~ varValue x0 (t n 0) == G_spec (varValue x0 (T n 0)).
Proof.
  split; [exact x0_feasible|]. split; [unfold Y; lia|].
  repeat split; try (vm_compute; reflexivity).
  vm_compute. discriminate.
Qed.

(** ** The recurrences *)

(** The income constraint as the script writes it: the income of period [y]
    is the rate of period [y] times the balance of period [y]. *)
Lemma income_same_period x q v y :
  feasible problem x -> (y < Y)%nat ->
  varValue x (I q v y) == (r q v).[y] * varValue x (A q v y).
Proof.
  intros Hx Hy. pose proof (income_sat x Hx y Hy q v) as H.
  lp_unfold_in H. lp_unfold. tauto.
Qed.

(** C2 fails on the code: at the feasible point [x0], the growth income of
    [m] in period 1 is 137816, the period-1 rate on the period-1 balance of
    1400000, and not 114141.18, the period-0 rate on the period-0 balance. *)
Lemma C2_fails_at_x0 :
  feasible problem x0 /\ (0 < 1 < Y)%nat /\
  varValue x0 (I m g 1) == 137816 /\
  (r m g).[1] * varValue x0 (A m g 1) == 137816 /\
  (r m g).[0] * varValue x0 (A m g 0) == 114141.18 /\
  ~ varValue x0 (I m g 1) == (r m g).[0] * varValue x0 (A m g 0).
Proof.
  split; [exact x0_feasible|]. split; [unfold Y; lia|].
  repeat split; try (vm_compute; reflexivity).
  vm_compute. discriminate.
Qed.

(** C3: at every feasible point the period-0 balances of both vehicles equal
    the initial wealth constants, and for every period [y > 0] the balances
    satisfy [A[y] = A[y-1] + F[y]] for the interest-bearing vehicle and
    [A[y] = A[y-1] + F[y] + I[y]] for the growth vehicle. *)
Theorem C3_balances x q y :
  feasible problem x -> (0 < y < Y)%nat ->
  varValue x (A q i 0) == A0 q i /\
  varValue x (A q g 0) == A0 q g /\
  varValue x (A q i y) == varValue x (A q i (y - 1)) + varValue x (F q i y) /\
  varValue x (A q g y) ==
    varValue x (A q g (y - 1)) + varValue x (F q g y) + varValue x (I q g y).
Proof.
  intros Hx [H0 Hy].
  pose proof (initial_sat x Hx q i) as Hi.
  pose proof (initial_sat x Hx q g) as Hg.
  pose proof (wealth_i_sat x Hx y Hy q H0) as Wi.
  pose proof (wealth_g_sat x Hx y Hy q H0) as Wg.
  lp_unfold_in Hi. lp_unfold_in Hg. lp_unfold_in Wi. lp_unfold_in Wg.
  lp_unfold. tauto.
Qed.

Lemma C3_witness :
  varValue x0 (A m i 0) == A0 m i /\
  varValue x0 (A m g 0) == A0 m g /\
  varValue x0 (A m i 1) == varValue x0 (A m i (1 - 1)) + varValue x0 (F m i 1) /\
  varValue x0 (A m g 1) ==
    varValue x0 (A m g (1 - 1)) + varValue x0 (F m g 1) + varValue x0 (I m g 1).
Proof. apply (C3_balances x0 m 1 x0_feasible). unfold Y. lia. Defined.

(** C4: at every feasible point, for every person and period, each bracket
    indicator is 0 or 1 and the three sum to 1, so exactly one bracket is
    selected; the contribution of the
    lowest bracket is 0; the contribution of a higher bracket is 0 when its
    indicator is 0; and the tax liability is the sum of the three
    contributions. *)
Theorem C4_brackets x q y :
  feasible problem x -> (y < Y)%nat ->
  (forall c, varValue x (b q y c) == 0 \/ varValue x (b q y c) == 1) /\
  varValue x (b q y BrA) + varValue x (b q y BrB) + varValue x (b q y BrC) == 1 /\
  (exists c, varValue x (b q y c) == 1 /\
             forall c', c' <> c -> varValue x (b q y c') == 0) /\
  varValue x (tax_comp q y BrA) == 0 /\
  (varValue x (b q y BrB) == 0 -> varValue x (tax_comp q y BrB) == 0) /\
  (varValue x (b q y BrC) == 0 -> varValue x (tax_comp q y BrC) == 0) /\
  varValue x (t q y) ==
    varValue x (tax_comp q y BrA) + varValue x (tax_comp q y BrB)
    + varValue x (tax_comp q y BrC).
Proof.
  intros Hx Hy. pose proof (tax_facts x q y Hx Hy) as H. cbv zeta in H.
  destruct H as (HbA & HbB & HbC & H).
  split; [intros c; destruct c; lp_unfold; assumption|].
  lp_unfold.
  split; [tauto|].
  split.
  { destruct HbA as [HbA | HbA], HbB as [HbB | HbB], HbC as [HbC | HbC];
      try (exfalso; rewrite HbA, HbB, HbC in H; lra);
      [exists BrC | exists BrB | exists BrA];
      (split; [assumption | intros c' Hc'; destruct c'; congruence]). }
  split; [lra|].
  split; [intros Hz; rewrite Hz in H; lra|].
  split; [intros Hz; rewrite Hz in H; lra|].
  tauto.
Qed.

Lemma C4_witness :
  (forall c, varValue x0 (b m 0 c) == 0 \/ varValue x0 (b m 0 c) == 1) /\
  varValue x0 (b m 0 BrA) + varValue x0 (b m 0 BrB) + varValue x0 (b m 0 BrC) == 1 /\
  (exists c, varValue x0 (b m 0 c) == 1 /\
             forall c', c' <> c -> varValue x0 (b m 0 c') == 0) /\
  varValue x0 (tax_comp m 0 BrA) == 0 /\
  (varValue x0 (b m 0 BrB) == 0 -> varValue x0 (tax_comp m 0 BrB) == 0) /\
  (varValue x0 (b m 0 BrC) == 0 -> varValue x0 (tax_comp m 0 BrC) == 0) /\
  varValue x0 (t m 0) ==
    varValue x0 (tax_comp m 0 BrA) + varValue x0 (tax_comp m 0 BrB)
    + varValue x0 (tax_comp m 0 BrC).
Proof. apply (C4_brackets x0 m 0 x0_feasible). unfold Y. lia. Defined.

(** ** Taxable and disposable income *)

(** C5 (as the code has it): at every feasible point, for every person and
    period, taxable income is salary + shop rent + home rent + interest
    income + growth income - total deductions - 30% of (home rent + shop
    rent) - (12% + 10%) of the basic salary - (f_m + f_p - 0.1) times the
    basic salary: the share of the basic salary paid as home rent counts
    less a tenth of the basic salary. *)
Theorem C5_taxable_income x q y :
  feasible problem x -> (y < Y)%nat ->
  varValue x (T q y) ==
    SAL q y + SR q y + varValue x (HR q y) + varValue x (I q i y)
    + varValue x (I q g y) - varValue x (D q y)
    - 0.3 * (varValue x (HR q y) + SR q y)
    - (0.12 + 0.1) * BS q y
    - (varValue x (f m) + varValue x (f p) - 0.1) * BS q y.
Proof.
  intros Hx Hy. pose proof (taxable_income_sat x Hx y Hy q) as H.
  lp_unfold_in H. lp_unfold. destruct H as [H _]. lra.
Qed.

Lemma C5_witness :
  varValue x0 (T n 0) ==
    SAL n 0 + SR n 0 + varValue x0 (HR n 0) + varValue x0 (I n i 0)
    + varValue x0 (I n g 0) - varValue x0 (D n 0)
    - 0.3 * (varValue x0 (HR n 0) + SR n 0)
    - (0.12 + 0.1) * BS n 0
    - (varValue x0 (f m) + varValue x0 (f p) - 0.1) * BS n 0.
Proof. apply (C5_taxable_income x0 n 0 x0_feasible). unfold Y. lia. Defined.

(** C5 (as the specification words it) fails: at the feasible point [x0] the
    taxable income of [n] in period 0 is 1989400, a tenth of the basic salary
    of 1200000 above the 1869400 of the specification's formula. *)
Lemma C5_counterexample :
  feasible problem x0 /\ (0 < Y)%nat /\
  varValue x0 (T n 0) == 1989400 /\
  taxable_income_spec x0 n 0 == 1869400 /\
  ~ varValue x0 (T n 0) == taxable_income_spec x0 n 0.
Proof.
  split; [exact x0_feasible|]. split; [unfold Y; lia|].
  repeat split; try (vm_compute; reflexivity).
  vm_compute. discriminate.
Qed.

(** C6: at every feasible point, for every person and period, disposable
    income [K] is salary + shop rent + home rent + interest income + fixed
    deduction - total deduction - expense - tax liability; the new
    investments are [d * K] in the growth vehicle and [(1 - d) * K] in the
    interest-bearing vehicle for the constant [d] of the script; and the two
    add up to [K]. *)
Theorem C6_disposable_income x q y :
  feasible problem x -> (y < Y)%nat ->
  varValue x (K q y) ==
    SAL q y + SR q y + varValue x (HR q y) + varValue x (I q i y)
    + varValue x (DF q y) - varValue x (D q y) - varValue x (E q y)
    - varValue x (t q y) /\
  varValue x (F q g y) == (d q).[y] * varValue x (K q y) /\
  varValue x (F q i y) == (1 - (d q).[y]) * varValue x (K q y) /\
  varValue x (F q g y) + varValue x (F q i y) == varValue x (K q y).
Proof.
  intros Hx Hy.
  pose proof (disposable_income_sat x Hx y Hy q) as HK.
  assert (Hg : satisfied x (F q g y == (d q).[y] *: K q y)%lp).
  { apply feasible_satisfied; [exact Hx|].
    apply (investment_in y Hy q). simpl. auto. }
  assert (Hi : satisfied x (F q i y == (1 - (d q).[y])%Q *: K q y)%lp).
  { apply feasible_satisfied; [exact Hx|].
    apply (investment_in y Hy q). simpl. auto. }
  lp_unfold_in HK. lp_unfold_in Hg. lp_unfold_in Hi. lp_unfold.
  destruct HK as [HK _], Hg as [Hg _], Hi as [Hi _].
  repeat split; try assumption; lra.
Qed.

Lemma C6_witness :
  varValue x0 (K p 2) ==
    SAL p 2 + SR p 2 + varValue x0 (HR p 2) + varValue x0 (I p i 2)
    + varValue x0 (DF p 2) - varValue x0 (D p 2) - varValue x0 (E p 2)
    - varValue x0 (t p 2) /\
  varValue x0 (F p g 2) == (d p).[2] * varValue x0 (K p 2) /\
  varValue x0 (F p i 2) == (1 - (d p).[2]) * varValue x0 (K p 2) /\
  varValue x0 (F p g 2) + varValue x0 (F p i 2) == varValue x0 (K p 2).
Proof. apply (C6_disposable_income x0 p 2 x0_feasible). unfold Y. lia. Defined.

(** ** Deductions *)

(** What the declarations and the deduction constraints give at a feasible
    point: the fixed deduction is at least [DF_lim], the total deduction
    lies between the fixed deduction and the fixed deduction plus the
    discretionary limit, and between 0 and [D_lim]. *)
Lemma deduction_bounds x q y :
  feasible problem x -> (y < Y)%nat ->
  DF_lim q <= varValue x (DF q y) /\
  varValue x (DF q y) <= varValue x (D q y) /\
  varValue x (D q y) <= varValue x (DF q y) + DD_lim q /\
  0 <= varValue x (D q y) /\
  varValue x (D q y) <= D_lim q.
Proof.
  intros Hx Hy.
  assert (H1 : satisfied x (D q y >= DF q y)%lp).
  { apply feasible_satisfied; [exact Hx|].
    apply (deduction_in y Hy q). simpl. auto. }
  assert (H2 : satisfied x (D q y <= DF q y + DD_lim q)%lp).
  { apply feasible_satisfied; [exact Hx|].
    apply (deduction_in y Hy q). simpl. auto. }
  lp_unfold_in H1. lp_unfold_in H2. lp_unfold. tauto.
Qed.

(** C7 fails on the code: at the feasible point [x0] the fixed deduction of
    [m] in period 0 is 300000, above the fixed cap of 50000. *)
Lemma C7_fails_at_x0 :
  feasible problem x0 /\ (0 < Y)%nat /\
  varValue x0 (DF m 0) == 300000 /\
  DF_lim m == 50000 /\
  ~ varValue x0 (DF m 0) <= DF_lim m.
Proof.
  split; [exact x0_feasible|]. split; [unfold Y; lia|].
  repeat split; try (vm_compute; reflexivity).
  vm_compute. intros H. apply H. reflexivity.
Qed.

(** ** Home rent *)

(** C8: at every feasible point, the home-rent share [f] of a senior person
    is one number for all periods, it lies in [0, 1), the shares of [m] and
    [p] sum to at most 0.5, and the home rent of the senior person in period
    [y] is the share times the basic salary of [n] in period [y]. *)
Theorem C8_home_rent_share x q y :
  feasible problem x -> In q SeniorPersons -> (y < Y)%nat ->
  0 <= varValue x (f q) /\ varValue x (f q) < 1 /\
  varValue x (f m) + varValue x (f p) <= 0.5 /\
  varValue x (HR q y) == varValue x (f q) * BS n y.
Proof.
  intros Hx Hq Hy.
  assert (Hm : satisfied x (HR m y == f m :* BS n y)%lp).
  { apply feasible_satisfied; [exact Hx|]. apply (HR_in y Hy). simpl. auto. }
  assert (Hp : satisfied x (HR p y == f p :* BS n y)%lp).
  { apply feasible_satisfied; [exact Hx|]. apply (HR_in y Hy). simpl. auto. }
  assert (Hs : satisfied x (f m + f p <= max_HR_fraction)%lp).
  { apply feasible_satisfied; [exact Hx|]. apply (HR_in y Hy). simpl. auto. }
  lp_unfold_in Hm. lp_unfold_in Hp. lp_unfold_in Hs.
  unfold max_HR_fraction in Hs.
  destruct Hq as [<- | [<- | []]]; lp_unfold; repeat split; lra.
Qed.

Lemma C8_witness :
  0 <= varValue x0 (f p) /\ varValue x0 (f p) < 1 /\
  varValue x0 (f m) + varValue x0 (f p) <= 0.5 /\
  varValue x0 (HR p 3) == varValue x0 (f p) * BS n 3.
Proof.
  apply (C8_home_rent_share x0 p 3 x0_feasible);
    [simpl; auto | unfold Y; lia].
Defined.

(** ** The allocation fraction *)

Lemma F_interest_zero x q y :
  feasible problem x -> (y < Y)%nat -> varValue x (F q i y) == 0.
Proof.
  intros Hx Hy.
  assert (Hi : satisfied x (F q i y == (1 - (d q).[y])%Q *: K q y)%lp).
  { apply feasible_satisfied; [exact Hx|].
    apply (investment_in y Hy q). simpl. auto. }
  lp_unfold_in Hi. rewrite (d_in_range q y Hy) in Hi.
  lp_unfold. destruct Hi as [Hi _]. lra.
Qed.

(** C9: the allocation fraction [d] is 1 for every person and period, so at
    every feasible point the new investment in the interest-bearing vehicle
    is 0 and the interest-bearing balance stays at its initial value. *)
Theorem C9_interest_balance_constant x q y :
  feasible problem x -> (y < Y)%nat ->
  (d q).[y] = 1 /\
  varValue x (F q i y) == 0 /\
  varValue x (A q i y) == A0 q i.
Proof.
  intros Hx Hy. split; [now apply d_in_range|].
  split; [now apply F_interest_zero|].
  induction y as [|y IH].
  - pose proof (initial_sat x Hx q i) as H. lp_unfold_in H. lp_unfold. tauto.
  - assert (Hy' : (y < Y)%nat) by lia.
    assert (H0 : (0 < S y)%nat) by lia.
    pose proof (wealth_i_sat x Hx (S y) Hy q H0) as W.
    pose proof (F_interest_zero x q (S y) Hx Hy) as HF.
    specialize (IH Hy').
    replace (S y - 1)%nat with y in W by lia.
    lp_unfold_in W. revert IH HF. lp_unfold. intros IH HF.
    destruct W as [W _]. lra.
Qed.

Lemma C9_witness :
  (d m).[10] = 1 /\
  varValue x0 (F m i 10) == 0 /\
  varValue x0 (A m i 10) == A0 m i.
Proof.
  apply (C9_interest_balance_constant x0 m 10 x0_feasible). unfold Y. lia.
Defined.

(** * Further properties of the built model *)

(** ** Bracket selection *)

(** The indicators follow the taxable income: bracket A is selected exactly
    when the income is at most 500000, bracket B exactly when it lies between
    500000.001 and 1000000, bracket C exactly when it is at least
    1000000.001.  No feasible income lies strictly between a threshold and
    the threshold plus [VERY_SMALL_NUM], and none exceeds 500000 plus
    [VERY_LARGE_NUM]. *)
Theorem bracket_selection x q y :
  feasible problem x -> (y < Y)%nat ->
  (varValue x (b q y BrA) == 1 <-> varValue x (T q y) <= 500000) /\
  (varValue x (b q y BrB) == 1 <->
     500000.001 <= varValue x (T q y) /\ varValue x (T q y) <= 1000000) /\
  (varValue x (b q y BrC) == 1 <-> 1000000.001 <= varValue x (T q y)) /\
  ~ (500000 < varValue x (T q y) /\ varValue x (T q y) < 500000.001) /\
  ~ (1000000 < varValue x (T q y) /\ varValue x (T q y) < 1000000.001) /\
  varValue x (T q y) <= 500000 + VERY_LARGE_NUM.
Proof.
  intros Hx Hy. pose proof (tax_facts x q y Hx Hy) as H. cbv zeta in H.
  lp_unfold. unfold VERY_LARGE_NUM.
  destruct H as (HbA & HbB & HbC & H).
  destruct HbA as [HbA | HbA], HbB as [HbB | HbB], HbC as [HbC | HbC];
    rewrite HbA, HbB, HbC in H; rewrite HbA, HbB, HbC;
    repeat split; intros; lra.
Qed.

Lemma bracket_selection_witness :
  (varValue x0 (b m 3 BrA) == 1 <-> varValue x0 (T m 3) <= 500000) /\
  (varValue x0 (b m 3 BrB) == 1 <->
     500000.001 <= varValue x0 (T m 3) /\ varValue x0 (T m 3) <= 1000000) /\
  (varValue x0 (b m 3 BrC) == 1 <-> 1000000.001 <= varValue x0 (T m 3)) /\
  ~ (500000 < varValue x0 (T m 3) /\ varValue x0 (T m 3) < 500000.001) /\
  ~ (1000000 < varValue x0 (T m 3) /\ varValue x0 (T m 3) < 1000000.001) /\
  varValue x0 (T m 3) <= 500000 + VERY_LARGE_NUM.
Proof. apply (bracket_selection x0 m 3 x0_feasible). unfold Y. lia. Defined.

(** The component of the selected bracket carries the whole tax: with
    bracket B selected its component is [1.04 * (0.2 * T - 87500)], with
    bracket C selected its component is [1.04 * (0.3 * T - 187500)], and the
    components of the brackets that are not selected are 0. *)
Theorem selected_component x q y :
  feasible problem x -> (y < Y)%nat ->
  (varValue x (b q y BrA) == 1 ->
     varValue x (tax_comp q y BrB) == 0 /\ varValue x (tax_comp q y BrC) == 0) /\
  (varValue x (b q y BrB) == 1 ->
     varValue x (tax_comp q y BrB) == 1.04 * (0.2 * varValue x (T q y) - 87500) /\
     varValue x (tax_comp q y BrC) == 0) /\
  (varValue x (b q y BrC) == 1 ->
     varValue x (tax_comp q y BrC) == 1.04 * (0.3 * varValue x (T q y) - 187500) /\
     varValue x (tax_comp q y BrB) == 0).
Proof.
  intros Hx Hy. pose proof (tax_facts x q y Hx Hy) as H. cbv zeta in H.
  lp_unfold.
  destruct H as (HbA & HbB & HbC & H).
  destruct HbA as [HbA | HbA], HbB as [HbB | HbB], HbC as [HbC | HbC];
    rewrite HbA, HbB, HbC in H; rewrite HbA, HbB, HbC;
    repeat split; intros; lra.
Qed.

Lemma selected_component_witness :
  (varValue x0 (b m 3 BrA) == 1 ->
     varValue x0 (tax_comp m 3 BrB) == 0 /\ varValue x0 (tax_comp m 3 BrC) == 0) /\
  (varValue x0 (b m 3 BrB) == 1 ->
     varValue x0 (tax_comp m 3 BrB) == 1.04 * (0.2 * varValue x0 (T m 3) - 87500) /\
     varValue x0 (tax_comp m 3 BrC) == 0) /\
  (varValue x0 (b m 3 BrC) == 1 ->
     varValue x0 (tax_comp m 3 BrC) == 1.04 * (0.3 * varValue x0 (T m 3) - 187500) /\
     varValue x0 (tax_comp m 3 BrB) == 0).
Proof. apply (selected_component x0 m 3 x0_feasible). unfold Y. lia. Defined.

(** A higher taxable income never carries a lower tax, whichever the persons
    and the periods compared. *)
Theorem tax_monotone x q1 y1 q2 y2 :
  feasible problem x -> (y1 < Y)%nat -> (y2 < Y)%nat ->
  varValue x (T q1 y1) <= varValue x (T q2 y2) ->
  varValue x (t q1 y1) <= varValue x (t q2 y2).
Proof.
  intros Hx Hy1 Hy2.
  pose proof (tax_facts x q1 y1 Hx Hy1) as H1. cbv zeta in H1.
  pose proof (tax_facts x q2 y2 Hx Hy2) as H2. cbv zeta in H2.
  lp_unfold. intros HT.
  destruct H1 as (HbA & HbB & HbC & H1).
  destruct H2 as (HcA & HcB & HcC & H2).
  destruct HbA as [HbA | HbA], HbB as [HbB | HbB], HbC as [HbC | HbC];
    rewrite HbA, HbB, HbC in H1; try (exfalso; lra);
    destruct HcA as [HcA | HcA], HcB as [HcB | HcB], HcC as [HcC | HcC];
    rewrite HcA, HcB, HcC in H2; lra.
Qed.

Lemma tax_monotone_witness : varValue x0 (t m 0) <= varValue x0 (t n 0).
Proof.
  apply (tax_monotone x0 m 0 n 0 x0_feasible);
    [unfold Y; lia | unfold Y; lia | vm_compute; discriminate].
Defined.

(** The tax has a notch at the first threshold: a tax liability is 0 or
    exceeds 13000. *)
Theorem tax_notch x q y :
  feasible problem x -> (y < Y)%nat ->
  varValue x (t q y) == 0 \/ 13000 < varValue x (t q y).
Proof.
  intros Hx Hy. pose proof (tax_facts x q y Hx Hy) as H. cbv zeta in H.
  lp_unfold.
  destruct H as (HbA & HbB & HbC & H).
  destruct HbA as [HbA | HbA], HbB as [HbB | HbB], HbC as [HbC | HbC];
    rewrite HbA, HbB, HbC in H; try (exfalso; lra);
    [right | right | left]; lra.
Qed.

Lemma tax_notch_witness :
  varValue x0 (t m 3) == 0 \/ 13000 < varValue x0 (t m 3).
Proof. apply (tax_notch x0 m 3 x0_feasible). unfold Y. lia. Defined.

(** ** Income, expenses and balances *)

(** The equalities and bounds of one person in one period, as relations
    between values. *)
Lemma period_facts x q y :
  feasible problem x -> (y < Y)%nat ->
  x (T_ q y) ==
    SAL q y + SR q y + x (HR_ q y) + x (I_ q i y) + x (I_ q g y) - x (D_ q y)
    - 0.3 * (x (HR_ q y) + SR q y) - (0.12 + 0.1) * BS q y
    - (x (f_ m) + x (f_ p) - 0.1) * BS q y /\
  x (K_ q y) ==
    SAL q y + SR q y + x (HR_ q y) + x (I_ q i y) + x (DF_ q y) - x (D_ q y)
    - x (E_ q y) - x (t_ q y) /\
  x (F_ q g y) == x (K_ q y) /\
  x (F_ q i y) == 0 /\
  x (I_ q i y) == (r q i).[y] * x (A_ q i y) /\
  x (I_ q g y) == (r q g).[y] * x (A_ q g y) /\
  DF_lim q <= x (DF_ q y) /\
  x (DF_ q y) <= x (D_ q y) /\
  x (D_ q y) <= x (DF_ q y) + DD_lim q /\
  x (D_ q y) <= D_lim q /\
  0 <= x (HR_ q y) /\ 0 <= x (I_ q i y) /\ 0 <= x (I_ q g y) /\
  0 <= x (A_ q i y) /\ 0 <= x (A_ q g y) /\
  0 <= x (t_ q y) /\ 0 <= x (T_ q y) /\ 0 <= x (E_ q y) /\ 0 <= x (K_ q y) /\
  0 <= x (f_ m) /\ 0 <= x (f_ p) /\ x (f_ m) + x (f_ p) <= 0.5 /\
  x (HR_ m y) == x (f_ m) * BS n y /\
  x (HR_ p y) == x (f_ p) * BS n y /\
  x (E_ n y) == BS n y + x (HR_ m y) + x (HR_ p y).
Proof.
  intros Hx Hy.
  pose proof (taxable_income_sat x Hx y Hy q) as HT.
  pose proof (disposable_income_sat x Hx y Hy q) as HK.
  pose proof (income_sat x Hx y Hy q i) as HIi.
  pose proof (income_sat x Hx y Hy q g) as HIg.
  pose proof (expense_n_sat x Hx y Hy) as HE.
  assert (Hg : satisfied x (F q g y == (d q).[y] *: K q y)%lp).
  { apply feasible_satisfied; [exact Hx|].
    apply (investment_in y Hy q). simpl. auto. }
  assert (Hi : satisfied x (F q i y == (1 - (d q).[y])%Q *: K q y)%lp).
  { apply feasible_satisfied; [exact Hx|].
    apply (investment_in y Hy q). simpl. auto. }
  assert (H1 : satisfied x (D q y >= DF q y)%lp).
  { apply feasible_satisfied; [exact Hx|].
    apply (deduction_in y Hy q). simpl. auto. }
  assert (H2 : satisfied x (D q y <= DF q y + DD_lim q)%lp).
  { apply feasible_satisfied; [exact Hx|].
    apply (deduction_in y Hy q). simpl. auto. }
  assert (Hm : satisfied x (HR m y == f m :* BS n y)%lp).
  { apply feasible_satisfied; [exact Hx|]. apply (HR_in y Hy). simpl. auto. }
  assert (Hp : satisfied x (HR p y == f p :* BS n y)%lp).
  { apply feasible_satisfied; [exact Hx|]. apply (HR_in y Hy). simpl. auto. }
  assert (Hs : satisfied x (f m + f p <= max_HR_fraction)%lp).
  { apply feasible_satisfied; [exact Hx|]. apply (HR_in y Hy). simpl. auto. }
  rewrite (d_in_range q y Hy) in Hg, Hi.
  lp_unfold_in HT. lp_unfold_in HK. lp_unfold_in HIi. lp_unfold_in HIg.
  lp_unfold_in HE. lp_unfold_in Hg. lp_unfold_in Hi. lp_unfold_in H1.
  lp_unfold_in H2. lp_unfold_in Hm. lp_unfold_in Hp. lp_unfold_in Hs.
  unfold max_HR_fraction in Hs.
  destruct HT as (HT & HT1 & HT2), HK as (HK & HK1 & HK2),
    HIi as (HIi & HIi1 & HIi2), HIg as (HIg & HIg1 & HIg2),
    HE as (HE & _), Hg as (Hg & _), Hi as (Hi & _), H1 as (H1 & _),
    H2 as (H2 & H2'), Hm as (Hm & _), Hp as (Hp & _), Hs as (Hs & _).
  repeat split; try tauto; try lra.
Qed.

(** The interest-bearing balance at a feasible point. *)
Lemma A_interest_at x q y :
  feasible problem x -> (y < Y)%nat -> x (A_ q i y) == A0 q i.
Proof.
  intros Hx. induction y as [|y IH]; intros Hy.
  - pose proof (initial_sat x Hx q i) as H. lp_unfold_in H. tauto.
  - assert (H0 : (0 < S y)%nat) by lia.
    pose proof (wealth_i_sat x Hx (S y) Hy q H0) as W.
    pose proof (period_facts x q (S y) Hx Hy) as P.
    replace (S y - 1)%nat with y in W by lia.
    lp_unfold_in W. destruct W as [W _].
    assert (IH' : x (A_ q i y) == A0 q i) by (apply IH; lia).
    lra.
Qed.

(** The schedules within the horizon. *)
Lemma SAL_c_lower y : (y < Y)%nat -> 3000000 <= SAL_c y.
Proof.
  intros Hy. unfold Y in Hy.
  do 11 (destruct y as [|y]; [vm_compute; discriminate|]). lia.
Qed.

Lemma SR_c_lower y : (y < Y)%nat -> 174000 <= SR_c y.
Proof.
  intros Hy. unfold Y in Hy.
  do 11 (destruct y as [|y]; [vm_compute; discriminate|]). lia.
Qed.

(** The interest income of the interest-bearing vehicle is the same in every
    period: the period-0 rate on the initial balance (177740 for [m], 146642
    for [p], nothing for [n]). *)
Theorem interest_income_constant x q y :
  feasible problem x -> (y < Y)%nat ->
  varValue x (I q i y) == (r q i).[0] * A0 q i /\
  varValue x (I q i y) == varValue x (I q i 0) /\
  varValue x (I q i y) ==
    match q with m => 177740 | p => 146642 | n => 0 end.
Proof.
  intros Hx Hy.
  assert (H0 : (0 < Y)%nat) by (unfold Y; lia).
  pose proof (period_facts x q y Hx Hy) as P.
  pose proof (period_facts x q 0 Hx H0) as P0.
  pose proof (A_interest_at x q y Hx Hy) as HA.
  pose proof (A_interest_at x q 0 Hx H0) as HA0.
  destruct P as (_ & _ & _ & _ & PI & _).
  destruct P0 as (_ & _ & _ & _ & PI0 & _).
  rewrite (r_constant q i y 0 Hy H0) in PI.
  lp_unfold.
  assert (E1 : x (I_ q i y) == (r q i).[0] * A0 q i) by (rewrite PI, HA; reflexivity).
  assert (E2 : x (I_ q i 0) == (r q i).[0] * A0 q i) by (rewrite PI0, HA0; reflexivity).
  split; [exact E1|]. split; [rewrite E1, E2; reflexivity|].
  rewrite E1. destruct q; vm_compute; reflexivity.
Qed.

Lemma interest_income_constant_witness :
  varValue x0 (I m i 7) == (r m i).[0] * A0 m i /\
  varValue x0 (I m i 7) == varValue x0 (I m i 0) /\
  varValue x0 (I m i 7) == 177740.
Proof. apply (interest_income_constant x0 m 7 x0_feasible). unfold Y. lia. Defined.
(** The expense of a senior person is the shop rent plus the constant
    interest income, so the disposable income of a senior person is home
    rent plus fixed deduction less total deduction less tax; as disposable
    income cannot be negative, the tax of a senior person never exceeds the
    home rent received, at most half the basic salary of [n]. *)
Theorem senior_disposable_income x q y :
  feasible problem x -> In q SeniorPersons -> (y < Y)%nat ->
  varValue x (E q y) == SR q y + (r q i).[0] * A0 q i /\
  varValue x (K q y) ==
    varValue x (HR q y) + varValue x (DF q y) - varValue x (D q y)
    - varValue x (t q y) /\
  varValue x (t q y) <= varValue x (HR q y) /\
  varValue x (HR q y) <= 0.5 * BS n y.
Proof.
  intros Hx Hq Hy.
  assert (H0 : (0 < Y)%nat) by (unfold Y; lia).
  pose proof (period_facts x q y Hx Hy) as P.
  pose proof (period_facts x q 0 Hx H0) as P0.
  pose proof (A_interest_at x q y Hx Hy) as HA.
  pose proof (A_interest_at x q 0 Hx H0) as HA0.
  pose proof (expense_senior_sat x Hx y Hy q Hq) as HE.
  assert (HB : 0 <= BS n y).
  { pose proof (SAL_c_lower y Hy). unfold BS, BS_c. lra. }
  lp_unfold_in HE. destruct HE as [HE _].
  destruct P as (_ & PK & _ & _ & PI & _ & _ & PD & _ & _ & _ & _ & _ & _ & _
                 & _ & _ & _ & PK0 & Pfm & Pfp & Pf & Pm & Pp & _).
  destruct P0 as (_ & _ & _ & _ & PI0 & _).
  rewrite (r_constant q i y 0 Hy H0) in PI.
  rewrite HA in PI. rewrite HA0 in PI0.
  lp_unfold.
  assert (HS : SAL q y = 0) by (destruct Hq as [<- | [<- | []]]; reflexivity).
  rewrite HS in PK.
  assert (Hh : x (HR_ q y) <= 0.5 * BS n y).
  { destruct Hq as [<- | [<- | []]].
    - rewrite Pm. apply Qmult_le_compat_r; [lra | exact HB].
    - rewrite Pp. apply Qmult_le_compat_r; [lra | exact HB]. }
  repeat split; try assumption; lra.
Qed.

Lemma senior_disposable_income_witness :
  varValue x0 (E m 5) == SR m 5 + (r m i).[0] * A0 m i /\
  varValue x0 (K m 5) ==
    varValue x0 (HR m 5) + varValue x0 (DF m 5) - varValue x0 (D m 5)
    - varValue x0 (t m 5) /\
  varValue x0 (t m 5) <= varValue x0 (HR m 5) /\
  varValue x0 (HR m 5) <= 0.5 * BS n 5.
Proof.
  apply (senior_disposable_income x0 m 5 x0_feasible);
    [simpl; auto | unfold Y; lia].
Defined.

(** The expense of [n] is the basic salary plus the home rents paid to [m]
    and [p], that is [(1 + f_m + f_p)] times the basic salary: between the
    basic salary and one and a half times it. *)
Theorem n_expense x y :
  feasible problem x -> (y < Y)%nat ->
  varValue x (E n y) ==
    (1 + varValue x (f m) + varValue x (f p)) * BS n y /\
  varValue x (HR m y) + varValue x (HR p y) <= 0.5 * BS n y /\
  BS n y <= varValue x (E n y) /\
  varValue x (E n y) <= 1.5 * BS n y.
Proof.
  intros Hx Hy.
  pose proof (period_facts x n y Hx Hy) as P.
  assert (HB : 0 <= BS n y).
  { pose proof (SAL_c_lower y Hy). unfold BS, BS_c. lra. }
  destruct P as (_ & _ & _ & _ & _ & _ & _ & _ & _ & _ & _ & _ & _ & _ & _
                 & _ & _ & _ & _ & Pfm & Pfp & Pf & Pm & Pp & PE).
  lp_unfold.
  assert (H1 : (x (f_ m) + x (f_ p)) * BS n y <= 0.5 * BS n y)
    by (apply Qmult_le_compat_r; [lra | exact HB]).
  assert (H2 : 0 * BS n y <= (x (f_ m) + x (f_ p)) * BS n y)
    by (apply Qmult_le_compat_r; [lra | exact HB]).
  repeat split; lra.
Qed.

Lemma n_expense_witness :
  varValue x0 (E n 2) ==
    (1 + varValue x0 (f m) + varValue x0 (f p)) * BS n 2 /\
  varValue x0 (HR m 2) + varValue x0 (HR p 2) <= 0.5 * BS n 2 /\
  BS n 2 <= varValue x0 (E n 2) /\
  varValue x0 (E n 2) <= 1.5 * BS n 2.
Proof. apply (n_expense x0 2 x0_feasible). unfold Y. lia. Defined.

(** The taxable income and the tax of [n] at a feasible point. *)
Lemma n_top_facts x y :
  feasible problem x -> (y < Y)%nat ->
  1981000 <= x (T_ n y) /\
  x (b_ n y BrC) == 1 /\
  x (t_ n y) == 1.04 * (0.3 * x (T_ n y) - 187500) /\
  423072 <= x (t_ n y).
Proof.
  intros Hx Hy.
  pose proof (period_facts x n y Hx Hy) as P.
  pose proof (tax_facts x n y Hx Hy) as H. cbv zeta in H.
  pose proof (SAL_c_lower y Hy) as HS.
  assert (HB : BS n y == 0.4 * SAL_c y) by reflexivity.
  destruct P as (PT & _ & _ & _ & _ & _ & _ & _ & _ & PD & PHR & PIi & PIg & _
                 & _ & _ & _ & _ & _ & Pfm & Pfp & Pf & _).
  change (SAL n y) with (SAL_c y) in PT. change (SR n y) with 0 in PT.
  change (D_lim n) with 275000 in PD.
  assert (H1 : (x (f_ m) + x (f_ p) - 0.1) * BS n y <= 0.4 * BS n y)
    by (apply Qmult_le_compat_r; lra).
  assert (HT : 1981000 <= x (T_ n y)) by lra.
  destruct H as (HbA & HbB & HbC & H).
  destruct HbA as [HbA | HbA], HbB as [HbB | HbB], HbC as [HbC | HbC];
    rewrite HbA, HbB, HbC in H; try (exfalso; lra);
    repeat split; lra.
Qed.

(** [n] is taxed in the top bracket in every period: the taxable income of
    [n] is at least 1981000, bracket C is selected, and the tax of [n] is
    [1.04 * (0.3 * T - 187500)], at least 423072. *)
Theorem n_top_bracket x y :
  feasible problem x -> (y < Y)%nat ->
  1981000 <= varValue x (T n y) /\
  varValue x (b n y BrC) == 1 /\
  varValue x (t n y) == 1.04 * (0.3 * varValue x (T n y) - 187500) /\
  423072 <= varValue x (t n y).
Proof. intros Hx Hy. lp_unfold. now apply n_top_facts. Qed.

Lemma n_top_bracket_witness :
  1981000 <= varValue x1 (T n 0) /\
  varValue x1 (b n 0 BrC) == 1 /\
  varValue x1 (t n 0) == 1.04 * (0.3 * varValue x1 (T n 0) - 187500) /\
  423072 <= varValue x1 (t n 0).
Proof. apply (n_top_bracket x1 0 x1_feasible). unfold Y. lia. Defined.

(** The bounds of [n_top_bracket] are attained: at the feasible point [x1]
    the taxable income of [n] in period 0 is 1981000 and the tax 423072. *)
Lemma n_top_bracket_tight :
  feasible problem x1 /\
  varValue x1 (T n 0) == 1981000 /\ varValue x1 (t n 0) == 423072.
Proof.
  split; [exact x1_feasible|]. split; vm_compute; reflexivity.
Qed.

(** The growth balance compounds on itself: as the growth income of period
    [y] is earned on the balance of period [y], the balance of period [y]
    less its own growth income is the previous balance plus the disposable
    income, and the growth balance never decreases. *)
Theorem growth_balance x q y :
  feasible problem x -> (0 < y < Y)%nat ->
  varValue x (A q g y) * (1 - (r q g).[y]) ==
    varValue x (A q g (y - 1)) + varValue x (K q y) /\
  varValue x (A q g (y - 1)) <= varValue x (A q g y).
Proof.
  intros Hx [H0 Hy].
  pose proof (period_facts x q y Hx Hy) as P.
  pose proof (wealth_g_sat x Hx y Hy q H0) as W.
  lp_unfold_in W. destruct W as [W _].
  destruct P as (_ & _ & PF & _ & _ & PI & _ & _ & _ & _ & _ & _ & PIg & _
                 & _ & _ & _ & _ & PK & _).
  lp_unfold. split; lra.
Qed.

Lemma growth_balance_witness :
  varValue x0 (A p g 4) * (1 - (r p g).[4]) ==
    varValue x0 (A p g (4 - 1)) + varValue x0 (K p 4) /\
  varValue x0 (A p g (4 - 1)) <= varValue x0 (A p g 4).
Proof. apply (growth_balance x0 p 4 x0_feasible). unfold Y. lia. Defined.



(** The deductions as declared and constrained: the fixed deduction is at
    least 50000 and has no upper bound of its own, the total deduction is
    at least the fixed deduction, at most the fixed deduction plus the
    discretionary limit and at most the total limit; hence the total
    deduction is at least 50000 and the fixed deduction at most the total
    limit. *)
Theorem deductions_as_declared x q y :
  feasible problem x -> (y < Y)%nat ->
  upBound (DF q y) = None /\
  50000 <= varValue x (DF q y) /\
  varValue x (DF q y) <= varValue x (D q y) /\
  varValue x (D q y) <= varValue x (DF q y) + DD_lim q /\
  50000 <= varValue x (D q y) /\
  varValue x (D q y) <= D_lim q /\
  varValue x (DF q y) <= D_lim q.
Proof.
  intros Hx Hy. pose proof (period_facts x q y Hx Hy) as P.
  destruct P as (_ & _ & _ & _ & _ & _ & P1 & P2 & P3 & P4 & _).
  assert (HL : DF_lim q == 50000) by (destruct q; reflexivity).
  split; [reflexivity|]. lp_unfold. repeat split; lra.
Qed.

Lemma deductions_as_declared_witness :
  upBound (DF p 1) = None /\
  50000 <= varValue x0 (DF p 1) /\
  varValue x0 (DF p 1) <= varValue x0 (D p 1) /\
  varValue x0 (D p 1) <= varValue x0 (DF p 1) + DD_lim p /\
  50000 <= varValue x0 (D p 1) /\
  varValue x0 (D p 1) <= D_lim p /\
  varValue x0 (DF p 1) <= D_lim p.
Proof. apply (deductions_as_declared x0 p 1 x0_feasible). unfold Y. lia. Defined.

(** ** The salary terms apply to [n] only *)

(** For a senior person the salary and basic-salary terms of the taxable
    income vanish: it is 70% of the shop and home rents plus the constant
    interest income plus the growth income less the total deduction. *)
Theorem senior_taxable_income x q y :
  feasible problem x -> In q SeniorPersons -> (y < Y)%nat ->
  varValue x (T q y) ==
    0.7 * (SR q y + varValue x (HR q y)) + (r q i).[0] * A0 q i
    + varValue x (I q g y) - varValue x (D q y).
Proof.
  intros Hx Hq Hy.
  assert (H0 : (0 < Y)%nat) by (unfold Y; lia).
  pose proof (period_facts x q y Hx Hy) as P.
  pose proof (A_interest_at x q y Hx Hy) as HA.
  destruct P as (PT & _ & _ & _ & PI & _).
  rewrite (r_constant q i y 0 Hy H0), HA in PI.
  assert (HS : SAL q y = 0) by (destruct Hq as [<- | [<- | []]]; reflexivity).
  assert (HB : BS q y = 0) by (destruct Hq as [<- | [<- | []]]; reflexivity).
  rewrite HS, HB in PT. lp_unfold. lra.
Qed.

Lemma senior_taxable_income_witness :
  varValue x0 (T m 8) ==
    0.7 * (SR m 8 + varValue x0 (HR m 8)) + (r m i).[0] * A0 m i
    + varValue x0 (I m g 8) - varValue x0 (D m 8).
Proof.
  apply (senior_taxable_income x0 m 8 x0_feasible);
    [simpl; auto | unfold Y; lia].
Defined.

(** ** The objective *)

Lemma value_fold_left_Add {Nm : Type} (x : Nm -> Q)
      (es : list (LpAffineExpression Nm)) (e0 : LpAffineExpression Nm) :
  value x (fold_left Add es e0) ==
    value x e0 + fold_right Qplus 0 (map (value x) es).
Proof.
  revert e0. induction es as [|e es IH]; intros e0; simpl.
  - ring.
  - rewrite IH. simpl. ring.
Qed.

(** The value of [lpSum] is the sum of the values of its terms. *)
Lemma value_lpSum {Nm : Type} (x : Nm -> Q) (es : list (LpAffineExpression Nm)) :
  value x (lpSum es) == fold_right Qplus 0 (map (value x) es).
Proof. unfold lpSum. rewrite value_fold_left_Add. simpl. ring. Qed.

Lemma rho_ones : rho = repeat 1 Y.
Proof. vm_compute. reflexivity. Qed.

(** The discount factors are all 1, so the objective is the plain sum of the
    tax liabilities of all persons and periods. *)
Theorem objective_is_total_tax (x : Name -> Q) :
  Forall (fun c => c = 1) rho /\
  value x objective_function ==
    fold_right Qplus 0
      (map (varValue x) (flat_map (fun q => map (t q) (seq 0 Y)) Persons)).
Proof.
  split.
  - rewrite rho_ones. apply Forall_forall. intros c Hc.
    now apply repeat_spec in Hc.
  - unfold objective_function. rewrite value_lpSum, rho_ones.
    cbv [Persons SeniorPersons Y seq flat_map map app fold_right Nat.add
         value varValue name t new_LpVariable getitem nth repeat].
    ring.
Qed.

(** At a feasible point the objective is at least 4653792: the tax of [n] is
    at least 423072 in each of the 11 periods and no tax is negative. *)
Theorem objective_lower_bound x :
  feasible problem x -> 4653792 <= value x objective_function.
Proof.
  intros Hx.
  assert (Hn : forall y, (y < Y)%nat -> 423072 <= x (t_ n y))
    by (intros y Hy; now apply n_top_facts).
  assert (Ht : forall q y, (y < Y)%nat -> 0 <= x (t_ q y)).
  { intros q y Hy. pose proof (period_facts x q y Hx Hy) as P. tauto. }
  unfold objective_function. rewrite value_lpSum, rho_ones.
  cbv [Persons SeniorPersons Y seq flat_map map app fold_right Nat.add
       value varValue name t new_LpVariable getitem nth repeat].
  pose proof (Hn 0%nat) as N0. pose proof (Hn 1%nat) as N1.
  pose proof (Hn 2%nat) as N2. pose proof (Hn 3%nat) as N3.
  pose proof (Hn 4%nat) as N4. pose proof (Hn 5%nat) as N5.
  pose proof (Hn 6%nat) as N6. pose proof (Hn 7%nat) as N7.
  pose proof (Hn 8%nat) as N8. pose proof (Hn 9%nat) as N9.
  pose proof (Hn 10%nat) as N10.
  pose proof (Ht m 0%nat) as M0. pose proof (Ht m 1%nat) as M1.
  pose proof (Ht m 2%nat) as M2. pose proof (Ht m 3%nat) as M3.
  pose proof (Ht m 4%nat) as M4. pose proof (Ht m 5%nat) as M5.
  pose proof (Ht m 6%nat) as M6. pose proof (Ht m 7%nat) as M7.
  pose proof (Ht m 8%nat) as M8. pose proof (Ht m 9%nat) as M9.
  pose proof (Ht m 10%nat) as M10.
  pose proof (Ht p 0%nat) as P0. pose proof (Ht p 1%nat) as P1.
  pose proof (Ht p 2%nat) as P2. pose proof (Ht p 3%nat) as P3.
  pose proof (Ht p 4%nat) as P4. pose proof (Ht p 5%nat) as P5.
  pose proof (Ht p 6%nat) as P6. pose proof (Ht p 7%nat) as P7.
  pose proof (Ht p 8%nat) as P8. pose proof (Ht p 9%nat) as P9.
  pose proof (Ht p 10%nat) as P10.
  unfold Y in *.
  assert (L0 : (0 < 10 + 1)%nat) by lia. assert (L1 : (1 < 10 + 1)%nat) by lia.
  assert (L2 : (2 < 10 + 1)%nat) by lia. assert (L3 : (3 < 10 + 1)%nat) by lia.
  assert (L4 : (4 < 10 + 1)%nat) by lia. assert (L5 : (5 < 10 + 1)%nat) by lia.
  assert (L6 : (6 < 10 + 1)%nat) by lia. assert (L7 : (7 < 10 + 1)%nat) by lia.
  assert (L8 : (8 < 10 + 1)%nat) by lia. assert (L9 : (9 < 10 + 1)%nat) by lia.
  assert (L10 : (10 < 10 + 1)%nat) by lia.
  specialize (N0 L0). specialize (N1 L1). specialize (N2 L2).
  specialize (N3 L3). specialize (N4 L4). specialize (N5 L5).
  specialize (N6 L6). specialize (N7 L7). specialize (N8 L8).
  specialize (N9 L9). specialize (N10 L10).
  specialize (M0 L0). specialize (M1 L1). specialize (M2 L2).
  specialize (M3 L3). specialize (M4 L4). specialize (M5 L5).
  specialize (M6 L6). specialize (M7 L7). specialize (M8 L8).
  specialize (M9 L9). specialize (M10 L10).
  specialize (P0 L0). specialize (P1 L1). specialize (P2 L2).
  specialize (P3 L3). specialize (P4 L4). specialize (P5 L5).
  specialize (P6 L6). specialize (P7 L7). specialize (P8 L8).
  specialize (P9 L9). specialize (P10 L10).
  clear Hn Ht Hx. lra.
Qed.

Lemma objective_lower_bound_witness : 4653792 <= value x0 objective_function.
Proof. apply (objective_lower_bound x0 x0_feasible). Defined.

(** ** The rounded schedules *)

Lemma round_half_even_close (q : Q) :
  q - (1 # 2) <= inject_Z (round_half_even q) /\
  inject_Z (round_half_even q) <= q + (1 # 2).
Proof.
  unfold round_half_even.
  pose proof (Qfloor_le q) as Hl. pose proof (Qlt_floor q) as Hu.
  rewrite inject_Z_plus in Hu. change (inject_Z 1) with 1 in Hu.
  destruct (Qcompare (q - inject_Z (Qfloor q)) (1 # 2)) eqn:C.
  - apply Qeq_alt in C.
    destruct (Z.even (Qfloor q)); [| rewrite inject_Z_plus; change (inject_Z 1) with 1];
      split; lra.
  - apply Qlt_alt in C. split; lra.
  - apply Qgt_alt in C. rewrite inject_Z_plus. change (inject_Z 1) with 1.
    split; lra.
Qed.

(** [round(x, -2)] is a whole number of hundreds within 50 of [x]. *)
Lemma round_hundreds (q : Q) :
  (exists k : Z, round q (-2) == inject_Z (100 * k)) /\
  q - 50 <= round q (-2) /\ round q (-2) <= q + 50.
Proof.
  pose proof (round_half_even_close (q * (1 # 100))) as [H1 H2].
  assert (R : round q (-2) == 100 * inject_Z (round_half_even (q * (1 # 100)))).
  { unfold round. change (10 ^ (-2)) with (1 # 100).
    rewrite Qred_correct. field. }
  split.
  - exists (round_half_even (q * (1 # 100))).
    rewrite R, inject_Z_mult. reflexivity.
  - rewrite R. split; lra.
Qed.

(** The salary and shop-rent schedules are whole numbers of hundreds within
    50 of the values growing by 10% a period from 3000000 and 174000, and
    the basic salary is 40% of the salary. *)
Theorem schedules_rounded (y : nat) :
  (exists k : Z, SAL_c y == inject_Z (100 * k)) /\
  3000000 * (1 + 0.1) ^ Z.of_nat y - 50 <= SAL_c y /\
  SAL_c y <= 3000000 * (1 + 0.1) ^ Z.of_nat y + 50 /\
  (exists k : Z, SR_c y == inject_Z (100 * k)) /\
  174000 * (1 + 0.1) ^ Z.of_nat y - 50 <= SR_c y /\
  SR_c y <= 174000 * (1 + 0.1) ^ Z.of_nat y + 50 /\
  BS_c y == 0.4 * SAL_c y.
Proof.
  unfold SAL_c, SR_c, BS_c.
  pose proof (round_hundreds (3000000 * (1 + 0.1) ^ Z.of_nat y)) as (H1 & H2 & H3).
  pose proof (round_hundreds (174000 * (1 + 0.1) ^ Z.of_nat y)) as (H4 & H5 & H6).
  repeat split; try assumption. 
Qed.

(** ** The home rent of the non-senior person *)





